(** * Tic-Tac-Toe game engine of [frontend_react/src/App.js]

    A shallow embedding of the game logic of the React component [App]:
    the winner scan [calculateWinner], the effect that tracks the outcome,
    and the three handlers [handleClick], [handleReset], [handleNewGame].

    The board is a JavaScript array.  The handlers index it with whatever
    number they are given, so the array model below writes out what
    JavaScript does for every integer key: reading a missing slot gives
    [undefined], writing past the end grows the array and leaves holes,
    a key that is not an array index becomes an ordinary property, and
    [slice()] copies the indexed slots only. *)

From stdpp Require Import gmap list.

Local Open Scope Z_scope.

(** ** JavaScript values and arrays *)

Inductive Mark := X | O.

(** The values this program stores in or reads from the board:
    ["X"], ["O"], [null], and [undefined] (read from a missing slot). *)
Inductive Value :=
  | Undefined
  | Null
  | Str (m : Mark).

#[global] Instance Mark_eq_dec : EqDecision Mark.
Proof. solve_decision. Defined.

#[global] Instance Value_eq_dec : EqDecision Value.
Proof. solve_decision. Defined.

(** [Boolean(v)]: the only truthy values here are the non-empty strings. *)
Definition Boolean (v : Value) : bool :=
  match v with
  | Str _ => true
  | _ => false
  end.

(** [v === w] on these values. *)
Definition strictEq (v w : Value) : bool := bool_decide (v = w).

(** An array: its indexed slots ([None] is a hole) and its other integer
    keyed properties. *)
Record JSArray := mkArray {
  elems : list (option Value);
  props : gmap Z Value
}.

(** Array indices are the integers from 0 to 2^32 - 2. *)
Definition isArrayIndex (i : Z) : bool := bool_decide (0 ≤ i < 2 ^ 32 - 1).

(** [a[i]] *)
Definition getAt (a : JSArray) (i : Z) : Value :=
  if isArrayIndex i
  then default Undefined (mjoin (elems a !! Z.to_nat i))
  else default Undefined (props a !! i).

(** [a[i] = v] *)
Definition setAt (a : JSArray) (i : Z) (v : Value) : JSArray :=
  if isArrayIndex i then
    let n := Z.to_nat i in
    if decide (n < length (elems a))%nat
    then mkArray (<[n := Some v]> (elems a)) (props a)
    else mkArray (elems a ++ replicate (n - length (elems a)) None ++ [Some v])
                 (props a)
  else mkArray (elems a) (<[i := v]> (props a)).

(** [a.slice()] *)
Definition slice (a : JSArray) : JSArray := mkArray (elems a) ∅.

(** [Array(n).fill(v)] *)
Definition fill (n : nat) (v : Value) : JSArray := mkArray (replicate n (Some v)) ∅.

(** [a.every(p)]: holes are skipped. *)
Definition every (p : Value → bool) (a : JSArray) : bool :=
  forallb (from_option p true) (elems a).

(** ** The winner scan *)

Definition Line : Type := Z * Z * Z.

Definition lines : list Line :=
  [ (0, 1, 2); (3, 4, 5); (6, 7, 8);
    (0, 3, 6); (1, 4, 7); (2, 5, 8);
    (0, 4, 8); (2, 4, 6) ].

(** The body of [for (let line of lines)], over the lines still to visit. *)
Fixpoint scanLines (squares : JSArray) (ls : list Line) : Value * option Line :=
  match ls with
  | [] => (Null, None)
  | line :: rest =>
      let '(a, b, c) := line in
      if Boolean (getAt squares a)
         && strictEq (getAt squares a) (getAt squares b)
         && strictEq (getAt squares a) (getAt squares c)
      then (getAt squares a, Some line)
      else scanLines squares rest
  end.

Definition calculateWinner (squares : JSArray) : Value * option Line :=
  scanLines squares lines.

(** ** Component state *)

Record State := mkState {
  squares : JSArray;
  xIsNext : bool;
  history : list JSArray;
  isGameOver : bool;
  winner : Value;
  winningLine : option Line
}.

(** What the effect on [squares] stores: [(winner, winningLine, isGameOver)]. *)
Definition evalSquares (sq : JSArray) : Value * option Line * bool :=
  let '(maybeWinner, line) := calculateWinner sq in
  if Boolean maybeWinner then (maybeWinner, line, true)
  else if every Boolean sq then (Null, None, true)
  else (Null, None, false).

(** The effect [useEffect(..., [squares])]. *)
Definition trackOutcome (s : State) : State :=
  let '(w, l, g) := evalSquares (squares s) in
  mkState (squares s) (xIsNext s) (history s) g w l.

(** A handler either returns without calling a setter, or replaces the state;
    every replacement in this component installs a fresh [squares] array. *)
Inductive Update :=
  | NoUpdate
  | SetState (s' : State).

Definition handleClick (i : Z) (s : State) : Update :=
  if Boolean (getAt (squares s) i) || isGameOver s then NoUpdate
  else
    let nextSquares :=
      setAt (slice (squares s)) i (Str (if xIsNext s then X else O)) in
    SetState (mkState nextSquares (negb (xIsNext s))
                      (history s ++ [squares s])
                      (isGameOver s) (winner s) (winningLine s)).

Definition handleReset (s : State) : Update :=
  SetState (mkState (fill 9 Null) true [] false Null None).

Definition handleNewGame (s : State) : Update :=
  if (0 <? length (history s))%nat then handleReset s else NoUpdate.

(** After a handler that replaced [squares], React re-renders and runs the
    effect; after a handler that returned early nothing runs. *)
Definition commit (s : State) (u : Update) : State :=
  match u with
  | NoUpdate => s
  | SetState s' => trackOutcome s'
  end.

(** The operations of the engine as the user interface triggers them. *)
Definition applyMove (i : Z) (s : State) : State := commit s (handleClick i s).
Definition reset (s : State) : State := commit s (handleReset s).
Definition newGame (s : State) : State := commit s (handleNewGame s).

(** The state after mounting: the [useState] initial values, then the effect. *)
Definition initialState : State :=
  trackOutcome (mkState (fill 9 Null) true [] false Null None).

(** ** Observations *)

Inductive Outcome :=
  | InProgress
  | WonBy (m : Mark) (line : option Line)
  | Draw.

(** The outcome as the status line and the cell highlighting read it:
    [if (winner) ... else if (isGameOver) ... else ...]. *)
Definition outcomeOf (r : Value * option Line * bool) : Outcome :=
  let '(w, l, g) := r in
  match w with
  | Str m => WonBy m l
  | _ => if g then Draw else InProgress
  end.

Definition outcome (s : State) : Outcome :=
  outcomeOf (winner s, winningLine s, isGameOver s).

Definition evaluate (sq : JSArray) : Outcome := outcomeOf (evalSquares sq).

(** [xIsNext ? "X" : "O"] *)
Definition turnMark (s : State) : Mark := if xIsNext s then X else O.

(** Apply the moves in order; [None] as soon as one of them is rejected
    (its handler returns early), so [Some] means every move was applied. *)
Fixpoint applyMoves (moves : list Z) (s : State) : option State :=
  match moves with
  | [] => Some s
  | i :: rest =>
      match handleClick i s with
      | NoUpdate => None
      | SetState _ => applyMoves rest (applyMove i s)
      end
  end.

(** The three user events and the state reached by handling one. *)
Inductive Event :=
  | Move (i : Z)
  | Reset
  | NewGame.

Definition step (e : Event) (s : State) : State :=
  match e with
  | Move i => applyMove i s
  | Reset => reset s
  | NewGame => newGame s
  end.

(** A move event carries a cell index of the board, 0 to 8. *)
Definition onBoard (e : Event) : Prop :=
  match e with
  | Move i => 0 ≤ i ≤ 8
  | _ => True
  end.

(** The states reachable from the reset state by apply move, new game and
    reset. *)
Inductive reachable : State → Prop :=
  | reachable_init : reachable initialState
  | reachable_step s e : reachable s → onBoard e → reachable (step e s).

(** The number of slots of the board holding mark [m]. *)
Definition countMark (m : Mark) (sq : JSArray) : nat :=
  length (filter (λ c, c = Some (Str m)) (elems sq)).

(** The stored outcome fields are the ones the effect computes from the
    stored board. *)
Definition synced (s : State) : Prop :=
  (winner s, winningLine s, isGameOver s) = evalSquares (squares s).

(** Cell [i] holds a mark; cell [i] is empty ([null], or nothing at all). *)
Definition occupied (sq : JSArray) (i : Z) : Prop := ∃ m, getAt sq i = Str m.
Definition emptyCell (sq : JSArray) (i : Z) : Prop := Boolean (getAt sq i) = false.

(** ** The scan order and the outcome in the words of the specification *)

(** Row [r] of a row-major 3x3 board, column [c], and the two diagonals. *)
Definition rowLine (r : Z) : Line := (3 * r, 3 * r + 1, 3 * r + 2).
Definition columnLine (c : Z) : Line := (c, c + 3, c + 6).
Definition rows : list Line := rowLine <$> [0; 1; 2].
Definition columns : list Line := columnLine <$> [0; 1; 2].
Definition diagonals : list Line := [ (0, 4, 8); (2, 4, 6) ].

(** The three cells of line [l] all hold mark [m]. *)
Definition lineHolds (sq : JSArray) (l : Line) (m : Mark) : Prop :=
  let '(a, b, c) := l in
  getAt sq a = Str m ∧ getAt sq b = Str m ∧ getAt sq c = Str m.

(** A board: exactly nine slots, none of them a hole. *)
Definition isBoard (sq : JSArray) : Prop :=
  length (elems sq) = 9%nat ∧ Forall is_Some (elems sq).

(** Every one of the nine cells holds a mark. *)
Definition allFilled (sq : JSArray) : Prop :=
  ∀ i, 0 ≤ i ≤ 8 → ∃ m, getAt sq i = Str m.

(** The condition of the [if] inside the scan loop. *)
Definition lineTest (sq : JSArray) (l : Line) : bool :=
  let '(a, b, c) := l in
  Boolean (getAt sq a)
  && strictEq (getAt sq a) (getAt sq b)
  && strictEq (getAt sq a) (getAt sq c).

(** What every reachable state satisfies: the board has its nine slots,
    and X has as many marks as O when X is to move, one more otherwise. *)
Definition balanced (s : State) : Prop :=
  length (elems (squares s)) = 9%nat ∧
  countMark X (squares s) =
  (countMark O (squares s) + if xIsNext s then 0 else 1)%nat.

(** A board with two completed lines: the top row for X and the middle row
    for O.  The top row comes first in the scan, so X is reported. *)
Definition twoLinesBoard : JSArray :=
  mkArray [ Some (Str X); Some (Str X); Some (Str X);
            Some (Str O); Some (Str O); Some (Str O);
            Some Null; Some Null; Some Null ] ∅.

(** ** The rest of the component: event sequences and what is rendered *)

(** Handle a list of events in order. *)
Definition run (es : list Event) (s : State) : State :=
  foldl (λ s e, step e s) s es.

(** The cell button's [disabled={!!squares[i] || isGameOver}]. *)
Definition cellDisabled (i : Z) (s : State) : bool :=
  Boolean (getAt (squares s) i) || isGameOver s.

(** [v != null]: false for [null] and [undefined] alike. *)
Definition looseNeNull (v : Value) : bool :=
  match v with
  | Undefined | Null => false
  | Str _ => true
  end.

(** [line.includes(i)] *)
Definition includes (l : Line) (i : Z) : bool :=
  let '(a, b, c) := l in
  bool_decide (i = a) || bool_decide (i = b) || bool_decide (i = c).

(** [winningLine && winningLine.includes(i) && winner != null], as a
    condition. *)
Definition isWinnerSquare (i : Z) (s : State) : bool :=
  match winningLine s with
  | None => false
  | Some l => includes l i && looseNeNull (winner s)
  end.

(** The indices [row * 3 + col] the board is rendered with, in order. *)
Definition renderedCells : list Z :=
  row ← [0; 1; 2]; col ← [0; 1; 2]; [row * 3 + col].

(** The rendered cells drawn as winner squares. *)
Definition highlighted (s : State) : list Z :=
  List.filter (λ i, isWinnerSquare i s) renderedCells.

(** The Reset button's [disabled={!isGameOver && squares.every(s => !s)}]. *)
Definition resetDisabled (s : State) : bool :=
  negb (isGameOver s) && every (λ v, negb (Boolean v)) (squares s).

(** The New Game button's [disabled={!isGameOver}]. *)
Definition newGameDisabled (s : State) : bool := negb (isGameOver s).

(** Every slot of the board holds [null] or a mark, and the array carries
    no other property. *)
Definition cellsValid (sq : JSArray) : Prop :=
  props sq = ∅ ∧
  Forall (λ c, c = Some Null ∨ ∃ m, c = Some (Str m)) (elems sq).

(** No line of the scan is complete. *)
Definition noLine (sq : JSArray) : Prop :=
  ∀ l m, l ∈ lines → ¬ lineHolds sq l m.

(** ** Lemmas on arrays *)

Lemma getAt_index a i :
  0 ≤ i < 2 ^ 32 - 1 →
  getAt a i = default Undefined (mjoin (elems a !! Z.to_nat i)).
Proof.
  intros Hi. unfold getAt, isArrayIndex.
  rewrite bool_decide_eq_true_2; [reflexivity | exact Hi].
Qed.

Lemma getAt_prop a i :
  ¬ (0 ≤ i < 2 ^ 32 - 1) →
  getAt a i = default Undefined (props a !! i).
Proof.
  intros Hi. unfold getAt, isArrayIndex.
  rewrite bool_decide_eq_false_2; [reflexivity | exact Hi].
Qed.

(** ** Lemmas on the winner scan *)

Lemma scanLines_cons sq l rest :
  scanLines sq (l :: rest) =
  if lineTest sq l then (getAt sq l.1.1, Some l) else scanLines sq rest.
Proof. destruct l as [[a b] c]. reflexivity. Qed.

Lemma lineTest_true sq l :
  lineTest sq l = true ↔ ∃ m, lineHolds sq l m.
Proof.
  destruct l as [[a b] c]. unfold lineTest, lineHolds, strictEq. split.
  - intros H. apply andb_prop in H as [H Hc]. apply andb_prop in H as [Ha Hb].
    apply bool_decide_eq_true_1 in Hb, Hc.
    destruct (getAt sq a) as [| |m] eqn:Ea; try discriminate.
    exists m. auto.
  - intros (m & Ha & Hb & Hc). rewrite Ha, Hb, Hc. simpl.
    rewrite bool_decide_eq_true_2; reflexivity.
Qed.

Lemma lineTest_false sq l :
  lineTest sq l = false ↔ ∀ m, ¬ lineHolds sq l m.
Proof.
  split.
  - intros H m Hm.
    assert (lineTest sq l = true) by (apply lineTest_true; eauto). congruence.
  - intros H. destruct (lineTest sq l) eqn:E; [|reflexivity].
    apply lineTest_true in E as [m Hm]. destruct (H m Hm).
Qed.

Lemma scanLines_first sq pre l post m :
  (∀ l' m', l' ∈ pre → ¬ lineHolds sq l' m') →
  lineHolds sq l m →
  scanLines sq (pre ++ l :: post) = (Str m, Some l).
Proof.
  intros Hpre Hl. induction pre as [|p pre IH]; simpl app; rewrite scanLines_cons.
  - assert (lineTest sq l = true) as -> by (apply lineTest_true; eauto).
    destruct l as [[a b] c]. destruct Hl as (Ha & _). simpl. by rewrite Ha.
  - assert (lineTest sq p = false) as ->.
    { apply lineTest_false. intros m'. apply Hpre. left. }
    apply IH. intros l' m' Hin. apply Hpre. by right.
Qed.

Lemma scanLines_none sq ls :
  (∀ l m, l ∈ ls → ¬ lineHolds sq l m) →
  scanLines sq ls = (Null, None).
Proof.
  intros H. induction ls as [|p ls IH]; [reflexivity|].
  rewrite scanLines_cons.
  assert (lineTest sq p = false) as ->.
  { apply lineTest_false. intros m. apply H. left. }
  apply IH. intros l m Hin. apply H. by right.
Qed.

(** On a board, [squares.every(Boolean)] says that all nine cells are filled. *)
Lemma every_Boolean_board sq :
  isBoard sq → every Boolean sq = true ↔ allFilled sq.
Proof.
  destruct sq as [es ps]. intros [Hlen Hsome]. simpl in *.
  do 9 (destruct es as [|c es]; [discriminate Hlen|];
        apply Forall_cons_1 in Hsome as [[? ->] Hsome]).
  destruct es; [|discriminate Hlen]. clear Hlen Hsome.
  unfold every, allFilled. simpl. split.
  - intros H i Hi.
    repeat (apply andb_prop in H as [? H]).
    assert (i = 0 ∨ i = 1 ∨ i = 2 ∨ i = 3 ∨ i = 4 ∨ i = 5 ∨ i = 6 ∨ i = 7 ∨ i = 8)
      as Hcases by lia.
    repeat destruct Hcases as [->|Hcases]; try subst i;
      rewrite getAt_index by lia; simpl;
      match goal with
      | |- ∃ m, ?v = Str m => destruct v; try discriminate; eauto
      end.
  - intros H.
    repeat (apply andb_true_intro; split); try reflexivity.
    + destruct (H 0) as [m Hm]; [lia|]. rewrite getAt_index in Hm by lia. simpl in Hm. by subst.
    + destruct (H 1) as [m Hm]; [lia|]. rewrite getAt_index in Hm by lia. simpl in Hm. by subst.
    + destruct (H 2) as [m Hm]; [lia|]. rewrite getAt_index in Hm by lia. simpl in Hm. by subst.
    + destruct (H 3) as [m Hm]; [lia|]. rewrite getAt_index in Hm by lia. simpl in Hm. by subst.
    + destruct (H 4) as [m Hm]; [lia|]. rewrite getAt_index in Hm by lia. simpl in Hm. by subst.
    + destruct (H 5) as [m Hm]; [lia|]. rewrite getAt_index in Hm by lia. simpl in Hm. by subst.
    + destruct (H 6) as [m Hm]; [lia|]. rewrite getAt_index in Hm by lia. simpl in Hm. by subst.
    + destruct (H 7) as [m Hm]; [lia|]. rewrite getAt_index in Hm by lia. simpl in Hm. by subst.
    + destruct (H 8) as [m Hm]; [lia|]. rewrite getAt_index in Hm by lia. simpl in Hm. by subst.
Qed.

Lemma lines_scan_order : lines = rows ++ columns ++ diagonals.
Proof. reflexivity. Qed.

Lemma evalSquares_won sq m l :
  calculateWinner sq = (Str m, Some l) → evaluate sq = WonBy m (Some l).
Proof. intros H. unfold evaluate, evalSquares. rewrite H. reflexivity. Qed.

Lemma evalSquares_no_line sq :
  calculateWinner sq = (Null, None) →
  evaluate sq = if every Boolean sq then Draw else InProgress.
Proof.
  intros H. unfold evaluate, evalSquares. rewrite H. simpl.
  destruct (every Boolean sq); reflexivity.
Qed.

Lemma outcome_trackOutcome s : outcome (trackOutcome s) = evaluate (squares s).
Proof.
  unfold outcome, evaluate, trackOutcome.
  destruct (evalSquares (squares s)) as [[w l] g]. reflexivity.
Qed.

(** ** C1: the outcome evaluation *)

(** C1.  The outcome the effect stores depends on the board alone.  The
    scanned lines are the rows top to bottom, then the columns left to
    right, then the two diagonals (top-left first).  On every board the
    evaluation gives won-by(mark, line) for the first line of that order
    whose three cells hold the same mark; with no such line it gives draw
    when all nine cells are filled, and in-progress otherwise. *)
Theorem evaluate_first_line (sq : JSArray) :
  isBoard sq →
  lines = rows ++ columns ++ diagonals ∧
  (∀ s, squares s = sq → outcome (trackOutcome s) = evaluate sq) ∧
  (∀ pre l post m,
      lines = pre ++ l :: post →
      (∀ l' m', l' ∈ pre → ¬ lineHolds sq l' m') →
      lineHolds sq l m →
      evaluate sq = WonBy m (Some l)) ∧
  ((∀ l m, l ∈ lines → ¬ lineHolds sq l m) → allFilled sq → evaluate sq = Draw) ∧
  ((∀ l m, l ∈ lines → ¬ lineHolds sq l m) → ¬ allFilled sq →
   evaluate sq = InProgress).
Proof.
  intros Hb. split; [exact lines_scan_order|]. split; [|split; [|split]].
  - intros s <-. apply outcome_trackOutcome.
  - intros pre l post m Hsplit Hpre Hl.
    apply evalSquares_won. unfold calculateWinner. rewrite Hsplit.
    by apply scanLines_first.
  - intros Hnone Hfull.
    rewrite evalSquares_no_line by (by apply scanLines_none).
    apply (every_Boolean_board sq Hb) in Hfull. by rewrite Hfull.
  - intros Hnone Hfull.
    rewrite evalSquares_no_line by (by apply scanLines_none).
    destruct (every Boolean sq) eqn:E; [|reflexivity].
    apply (every_Boolean_board sq Hb) in E. contradiction.
Qed.

Lemma evaluate_first_line_witness :
  isBoard twoLinesBoard ∧ evaluate twoLinesBoard = WonBy X (Some (0, 1, 2)).
Proof.
  assert (isBoard twoLinesBoard) as Hb.
  { split; [reflexivity|]. unfold twoLinesBoard; simpl. repeat constructor; eauto. }
  split; [exact Hb|].
  destruct (evaluate_first_line twoLinesBoard Hb) as (_ & _ & Hwon & _).
  apply (Hwon [] (0, 1, 2) (tail lines) X).
  - reflexivity.
  - intros l' m' Hin. inversion Hin.
  - vm_compute. auto.
Defined.

(** ** Reading after writing *)

Lemma getAt_setAt_eq a i v : getAt (setAt a i v) i = v.
Proof.
  unfold getAt, setAt, isArrayIndex. case_bool_decide as Hi.
  - destruct (decide (Z.to_nat i < length (elems a))%nat) as [Hlt|Hge]; simpl.
    + by rewrite list_lookup_insert_eq.
    + rewrite lookup_app_r by lia.
      rewrite lookup_app_r by (rewrite length_replicate; lia).
      rewrite length_replicate.
      by replace (Z.to_nat i - length (elems a)
                  - (Z.to_nat i - length (elems a)))%nat with 0%nat by lia.
  - simpl. by rewrite lookup_insert_eq.
Qed.

Lemma setAt_index a i v :
  0 ≤ i < 2 ^ 32 - 1 →
  setAt a i v =
  if decide (Z.to_nat i < length (elems a))%nat
  then mkArray (<[Z.to_nat i := Some v]> (elems a)) (props a)
  else mkArray (elems a ++ replicate (Z.to_nat i - length (elems a)) None
                        ++ [Some v]) (props a).
Proof.
  intros Hi. unfold setAt, isArrayIndex.
  by rewrite bool_decide_eq_true_2.
Qed.

Lemma setAt_prop a i v :
  ¬ (0 ≤ i < 2 ^ 32 - 1) →
  setAt a i v = mkArray (elems a) (<[i := v]> (props a)).
Proof.
  intros Hi. unfold setAt, isArrayIndex.
  by rewrite bool_decide_eq_false_2.
Qed.

Lemma getAt_setAt_ne a i j v :
  j ≠ i → getAt (setAt a i v) j = getAt a j.
Proof.
  intros Hne.
  destruct (decide (0 ≤ i < 2 ^ 32 - 1)) as [Hi|Hi];
    destruct (decide (0 ≤ j < 2 ^ 32 - 1)) as [Hj|Hj].
  - rewrite setAt_index, !getAt_index by done.
    assert (Z.to_nat j ≠ Z.to_nat i) as Hn by lia.
    destruct (decide (Z.to_nat i < length (elems a))%nat) as [Hlt|Hge]; simpl.
    + by rewrite list_lookup_insert_ne.
    + destruct (decide (Z.to_nat j < length (elems a))%nat) as [Hjl|Hjg].
      * by rewrite lookup_app_l.
      * rewrite lookup_app_r by lia.
        rewrite (lookup_ge_None_2 (elems a)) by lia.
        destruct (decide (Z.to_nat j < Z.to_nat i)%nat) as [Hji|Hji].
        -- rewrite lookup_app_l by (rewrite length_replicate; lia).
           rewrite lookup_replicate_2 by lia. reflexivity.
        -- rewrite lookup_ge_None_2; [reflexivity|].
           rewrite length_app, length_replicate. simpl. lia.
  - rewrite setAt_index, !getAt_prop by done.
    destruct (decide (Z.to_nat i < length (elems a))%nat); reflexivity.
  - rewrite setAt_prop, !getAt_index by done. reflexivity.
  - rewrite setAt_prop, !getAt_prop by done. simpl.
    by rewrite lookup_insert_ne.
Qed.

Lemma getAt_slice_index a j :
  0 ≤ j < 2 ^ 32 - 1 → getAt (slice a) j = getAt a j.
Proof. intros Hj. by rewrite !getAt_index. Qed.

Lemma getAt_fill_9 i : getAt (fill 9 Null) i = if isArrayIndex i && (i <? 9) then Null else Undefined.
Proof.
  unfold getAt, isArrayIndex. case_bool_decide as Hi; simpl.
  - destruct (i <? 9) eqn:E.
    + apply Z.ltb_lt in E.
      assert (i = 0 ∨ i = 1 ∨ i = 2 ∨ i = 3 ∨ i = 4 ∨ i = 5 ∨ i = 6 ∨ i = 7 ∨ i = 8)
        as Hcases by lia.
      repeat destruct Hcases as [->|Hcases]; try subst i; reflexivity.
    + apply Z.ltb_ge in E. rewrite lookup_ge_None_2; [reflexivity|]. simpl. lia.
  - reflexivity.
Qed.

(** ** Lemmas on the effect and the handlers *)

Lemma squares_trackOutcome s : squares (trackOutcome s) = squares s.
Proof. unfold trackOutcome. by destruct (evalSquares (squares s)) as [[? ?] ?]. Qed.

Lemma xIsNext_trackOutcome s : xIsNext (trackOutcome s) = xIsNext s.
Proof. unfold trackOutcome. by destruct (evalSquares (squares s)) as [[? ?] ?]. Qed.

Lemma history_trackOutcome s : history (trackOutcome s) = history s.
Proof. unfold trackOutcome. by destruct (evalSquares (squares s)) as [[? ?] ?]. Qed.

Lemma synced_trackOutcome s : synced (trackOutcome s).
Proof.
  unfold synced, trackOutcome.
  destruct (evalSquares (squares s)) as [[w l] g] eqn:E. simpl. by rewrite E.
Qed.

(** A stored outcome other than in-progress has the game-over flag set. *)
Lemma synced_game_over s :
  synced s → outcome s ≠ InProgress → isGameOver s = true.
Proof.
  unfold synced, outcome, evalSquares. intros Hs Hout.
  destruct (calculateWinner (squares s)) as [w l].
  destruct (Boolean w) eqn:Ew.
  - congruence.
  - destruct (every Boolean (squares s)).
    + congruence.
    + injection Hs as Hw Hl Hg. rewrite Hw, Hg in Hout. by destruct Hout.
Qed.

Lemma in_progress_fields s :
  outcome s = InProgress → Boolean (winner s) = false ∧ isGameOver s = false.
Proof.
  unfold outcome, outcomeOf.
  destruct (winner s), (isGameOver s); try discriminate; auto.
Qed.

Lemma handleClick_reject s i :
  Boolean (getAt (squares s) i) = true ∨ isGameOver s = true →
  handleClick i s = NoUpdate.
Proof.
  unfold handleClick. intros [->| ->]; [reflexivity|].
  by rewrite orb_true_r.
Qed.

Lemma handleClick_accept s i :
  Boolean (getAt (squares s) i) = false → isGameOver s = false →
  handleClick i s =
  SetState (mkState (setAt (slice (squares s)) i (Str (turnMark s)))
                    (negb (xIsNext s)) (history s ++ [squares s])
                    false (winner s) (winningLine s)).
Proof.
  intros Hc Hg. unfold handleClick, turnMark. rewrite Hc, Hg. reflexivity.
Qed.

Lemma applyMove_accept s i :
  Boolean (getAt (squares s) i) = false → isGameOver s = false →
  applyMove i s =
  trackOutcome (mkState (setAt (slice (squares s)) i (Str (turnMark s)))
                        (negb (xIsNext s)) (history s ++ [squares s])
                        false (winner s) (winningLine s)).
Proof. intros Hc Hg. unfold applyMove. by rewrite handleClick_accept. Qed.

(** Every operation leaves the outcome fields in step with the board. *)
Lemma synced_initialState : synced initialState.
Proof. apply synced_trackOutcome. Qed.

Lemma synced_commit s u : synced s → synced (commit s u).
Proof. destruct u; [done|]. intros _. apply synced_trackOutcome. Qed.

Lemma synced_step e s : synced s → synced (step e s).
Proof. destruct e; apply synced_commit. Qed.

Lemma reachable_synced s : reachable s → synced s.
Proof.
  induction 1 as [|s e _ IH _]; [exact synced_initialState|].
  by apply synced_step.
Qed.

Lemma applyMove_frame_index s i j :
  0 ≤ j < 2 ^ 32 - 1 → j ≠ i →
  getAt (squares (applyMove i s)) j = getAt (squares s) j.
Proof.
  intros Hj Hne. unfold applyMove, handleClick.
  destruct (Boolean (getAt (squares s) i) || isGameOver s); simpl; [done|].
  rewrite squares_trackOutcome. simpl.
  rewrite getAt_setAt_ne by done. by apply getAt_slice_index.
Qed.

(** ** C2: rejected moves *)

(** C2.  For every state and every cell index 0-8, if the indexed cell is
    occupied or the outcome is not in-progress, the click handler returns
    without calling a setter and the whole state (board, turn indicator,
    outcome fields, history) stays as it was. *)
Theorem applyMove_rejected_noop (s : State) (i : Z) :
  synced s →
  0 ≤ i ≤ 8 →
  occupied (squares s) i ∨ outcome s ≠ InProgress →
  handleClick i s = NoUpdate ∧ applyMove i s = s.
Proof.
  intros Hs _ Hpre.
  assert (handleClick i s = NoUpdate) as Hh.
  { apply handleClick_reject. destruct Hpre as [[m Hm]|Hout].
    - left. by rewrite Hm.
    - right. by apply synced_game_over. }
  split; [exact Hh|]. unfold applyMove. by rewrite Hh.
Qed.

Lemma applyMove_rejected_noop_witness :
  applyMove 0 (applyMove 0 initialState) = applyMove 0 initialState.
Proof.
  apply (applyMove_rejected_noop (applyMove 0 initialState) 0).
  - reflexivity.
  - lia.
  - left. exists X. reflexivity.
Defined.

(** ** C3: accepted moves *)

(** C3.  For every state with outcome in-progress and every empty cell
    index 0-8, the move stores the current turn's mark in that cell,
    appends the pre-move board to the history, flips the turn indicator,
    and the outcome observed afterwards is the evaluation of the new
    board. *)
Theorem applyMove_accepted (s : State) (i : Z) :
  outcome s = InProgress →
  0 ≤ i ≤ 8 →
  emptyCell (squares s) i →
  getAt (squares (applyMove i s)) i = Str (turnMark s) ∧
  history (applyMove i s) = history s ++ [squares s] ∧
  xIsNext (applyMove i s) = negb (xIsNext s) ∧
  turnMark (applyMove i s) ≠ turnMark s ∧
  outcome (applyMove i s) = evaluate (squares (applyMove i s)).
Proof.
  intros Hout _ Hempty. apply in_progress_fields in Hout as [_ Hg].
  rewrite (applyMove_accept s i Hempty Hg).
  rewrite squares_trackOutcome, history_trackOutcome, outcome_trackOutcome.
  unfold turnMark. rewrite xIsNext_trackOutcome. simpl.
  split; [apply getAt_setAt_eq|].
  split; [reflexivity|]. split; [reflexivity|].
  split; [by destruct (xIsNext s) | reflexivity].
Qed.

Lemma applyMove_accepted_witness :
  getAt (squares (applyMove 4 initialState)) 4 = Str X ∧
  history (applyMove 4 initialState) = [fill 9 Null] ∧
  xIsNext (applyMove 4 initialState) = false ∧
  outcome (applyMove 4 initialState) = InProgress.
Proof.
  assert (outcome initialState = InProgress) as Hout by reflexivity.
  assert (0 ≤ 4 ≤ 8) as Hi by lia.
  assert (emptyCell (squares initialState) 4) as He by reflexivity.
  destruct (applyMove_accepted initialState 4 Hout Hi He)
    as (Hc & Hh & Hx & _ & Ho).
  split; [exact Hc|]. split; [exact Hh|]. split; [exact Hx|].
  rewrite Ho. reflexivity.
Defined.

(** ** C10: the frame of a move *)

(** C10.  For every state with outcome in-progress and every empty cell
    index i in 0-8, the move changes no board cell other than cell i:
    every cell j ≠ i reads the same after the move as before it. *)
Theorem applyMove_other_cells (s : State) (i j : Z) :
  outcome s = InProgress →
  0 ≤ i ≤ 8 →
  emptyCell (squares s) i →
  0 ≤ j ≤ 8 →
  j ≠ i →
  getAt (squares (applyMove i s)) j = getAt (squares s) j.
Proof.
  intros _ _ _ Hj Hne. apply applyMove_frame_index; [lia | exact Hne].
Qed.

Lemma applyMove_other_cells_witness :
  getAt (squares (applyMove 4 (applyMove 0 initialState))) 0 = Str X.
Proof.
  assert (outcome (applyMove 0 initialState) = InProgress) as Hout by reflexivity.
  assert (emptyCell (squares (applyMove 0 initialState)) 4) as He by reflexivity.
  assert (0 ≤ 4 ≤ 8) as Hi by lia.
  assert (0 ≤ 0 ≤ 8) as Hj by lia.
  assert (0 ≠ 4) as Hne by lia.
  rewrite (applyMove_other_cells (applyMove 0 initialState) 4 0 Hout Hi He Hj Hne).
  reflexivity.
Defined.

(** ** C6: reset *)

(** C6.  Reset has no precondition: from every state the handler replaces
    the state, and the result is the state with nine empty cells, X to
    move, outcome in-progress and an empty history (the state the
    component starts in). *)
Theorem reset_always (s : State) :
  handleReset s ≠ NoUpdate ∧
  reset s = initialState ∧
  squares (reset s) = mkArray (replicate 9 (Some Null)) ∅ ∧
  turnMark (reset s) = X ∧
  outcome (reset s) = InProgress ∧
  history (reset s) = [].
Proof.
  split; [discriminate|]. repeat (split; [reflexivity|]). reflexivity.
Qed.

(** ** C7: new game *)

(** C7.  In every state whose history is non-empty, new game gives exactly
    the state reset gives; in every state whose history is empty, new game
    leaves the state unchanged. *)
Theorem newGame_reset_or_noop (s : State) :
  (history s ≠ [] → newGame s = reset s) ∧
  (history s = [] → newGame s = s).
Proof.
  unfold newGame, reset, handleNewGame.
  destruct (history s) as [|b h]; simpl; split; intros H; congruence.
Qed.

Lemma newGame_reset_or_noop_witness :
  newGame (applyMove 0 initialState) = reset (applyMove 0 initialState) ∧
  newGame initialState = initialState.
Proof.
  split.
  - apply (newGame_reset_or_noop (applyMove 0 initialState)). discriminate.
  - apply (newGame_reset_or_noop initialState). reflexivity.
Defined.

(** ** C9: the top-row scenario *)

(** C9.  From the reset state the moves 0, 4, 1, 3, 2 are all applied and
    place X, O, X, O, X; after the fifth the outcome is won-by(X, [0,1,2]). *)
Theorem scenario_top_row :
  (elems ∘ squares) <$> applyMoves [0; 4; 1; 3; 2] initialState =
    Some [ Some (Str X); Some (Str X); Some (Str X);
           Some (Str O); Some (Str O); Some Null;
           Some Null; Some Null; Some Null ] ∧
  outcome <$> applyMoves [0; 4; 1; 3; 2] initialState =
    Some (WonBy X (Some (0, 1, 2))) ∧
  outcome <$> applyMoves [0; 4; 1; 3] initialState = Some InProgress.
Proof. repeat split; vm_compute; reflexivity. Qed.

(** ** C5: turn alternation *)

Lemma applyMoves_turn moves : ∀ s s',
  applyMoves moves s = Some s' →
  xIsNext s' = if Nat.even (length moves) then xIsNext s else negb (xIsNext s).
Proof.
  induction moves as [|i moves IH]; intros s s' H.
  - simpl in H. by injection H as <-.
  - simpl in H. destruct (handleClick i s) as [|s1] eqn:Hh; [discriminate|].
    apply IH in H. rewrite H.
    assert (xIsNext (applyMove i s) = negb (xIsNext s)) as ->.
    { unfold applyMove. rewrite Hh. simpl. rewrite xIsNext_trackOutcome.
      unfold handleClick in Hh.
      destruct (Boolean (getAt (squares s) i) || isGameOver s); [discriminate|].
      by injection Hh as <-. }
    change (length (i :: moves)) with (S (length moves)).
    rewrite Nat.even_succ, <- Nat.negb_even.
    destruct (Nat.even (length moves)), (xIsNext s); reflexivity.
Qed.

(** C5.  After any sequence of N applied moves from the reset state, the
    turn indicator is X when N is even and O when N is odd. *)
Theorem turn_after_moves (moves : list Z) (s : State) :
  applyMoves moves initialState = Some s →
  turnMark s = if Nat.even (length moves) then X else O.
Proof.
  intros H. apply applyMoves_turn in H. unfold turnMark. rewrite H.
  change (xIsNext initialState) with true.
  by destruct (Nat.even (length moves)).
Qed.

Lemma turn_after_moves_witness :
  turnMark (applyMove 1 (applyMove 4 (applyMove 0 initialState))) = O.
Proof.
  apply (turn_after_moves [0; 4; 1]). reflexivity.
Defined.

(** ** C4: indices outside the board *)

Lemma app_singleton_ne {A} (l : list A) (x : A) : l ++ [x] ≠ l.
Proof.
  intros H. apply (f_equal length) in H. rewrite length_app in H. simpl in H. lia.
Qed.

(** C4, as the code has it.  For every state and every integer index
    outside 0-8 the handler never fails.  It returns early, leaving the
    whole state unchanged, when the outcome is not in-progress or a mark is
    already stored under that index.  Otherwise it accepts the move like
    any other: the current mark is stored under that index, the pre-move
    board is appended to the history and the turn flips, so the state
    changes. *)
Theorem applyMove_out_of_range (s : State) (i : Z) :
  synced s →
  i < 0 ∨ 8 < i →
  (occupied (squares s) i ∨ outcome s ≠ InProgress →
   handleClick i s = NoUpdate ∧ applyMove i s = s) ∧
  (emptyCell (squares s) i → outcome s = InProgress →
   getAt (squares (applyMove i s)) i = Str (turnMark s) ∧
   history (applyMove i s) = history s ++ [squares s] ∧
   xIsNext (applyMove i s) = negb (xIsNext s) ∧
   applyMove i s ≠ s).
Proof.
  intros Hs _. split.
  - intros Hpre.
    assert (handleClick i s = NoUpdate) as Hh.
    { apply handleClick_reject. destruct Hpre as [[m Hm]|Hout].
      - left. by rewrite Hm.
      - right. by apply synced_game_over. }
    split; [exact Hh|]. unfold applyMove. by rewrite Hh.
  - intros Hempty Hout. apply in_progress_fields in Hout as [_ Hg].
    rewrite (applyMove_accept s i Hempty Hg).
    rewrite squares_trackOutcome, history_trackOutcome, xIsNext_trackOutcome.
    simpl. split; [apply getAt_setAt_eq|].
    split; [reflexivity|]. split; [reflexivity|].
    intros H. apply (f_equal history) in H.
    rewrite history_trackOutcome in H. simpl in H.
    by apply app_singleton_ne in H.
Qed.

Lemma applyMove_out_of_range_witness :
  getAt (squares (applyMove 9 initialState)) 9 = Str X ∧
  applyMove 9 initialState ≠ initialState.
Proof.
  assert (synced initialState) as Hs by reflexivity.
  assert (9 < 0 ∨ 8 < 9) as Hi by lia.
  assert (emptyCell (squares initialState) 9) as He by reflexivity.
  assert (outcome initialState = InProgress) as Ho by reflexivity.
  destruct (applyMove_out_of_range initialState 9 Hs Hi) as [_ Hacc].
  destruct (Hacc He Ho) as (Hc & _ & _ & Hne).
  split; [exact Hc | exact Hne].
Defined.

(** C4 as the specification words it fails: index 9 is outside 0-8, yet in
    the reset state the move is accepted.  The array grows to ten slots,
    the history gains the old board, the turn passes to O, and the state is
    not the one before. *)
Lemma out_of_range_move_accepted :
  8 < 9 ∧
  handleClick 9 initialState ≠ NoUpdate ∧
  elems (squares (applyMove 9 initialState)) =
    replicate 9 (Some Null) ++ [Some (Str X)] ∧
  history (applyMove 9 initialState) = [squares initialState] ∧
  turnMark (applyMove 9 initialState) = O ∧
  applyMove 9 initialState ≠ initialState.
Proof.
  split; [lia|]. split; [discriminate|].
  split; [reflexivity|]. split; [reflexivity|]. split; [reflexivity|].
  intros H. apply (f_equal xIsNext) in H. discriminate H.
Qed.

(** ** C8: the two marks stay balanced *)

Section Counting.
Variable m : Mark.

Local Abbreviation isM := (λ c : option Value, c = Some (Str m)).

Lemma count_insert_mark (p : Mark) (cs : list (option Value)) : ∀ n,
  (n < length cs)%nat →
  Boolean (default Undefined (mjoin (cs !! n))) = false →
  length (filter isM (<[n := Some (Str p)]> cs)) =
  (length (filter isM cs) + if decide (m = p) then 1 else 0)%nat.
Proof.
  induction cs as [|c cs IH]; intros n Hn Hc; simpl in Hn; [lia|].
  destruct n as [|n]; simpl.
  - rewrite !filter_cons. simpl in Hc.
    destruct (decide (isM c)) as [Hm|_].
    { simpl in Hm. subst c. discriminate Hc. }
    destruct (decide (isM (Some (Str p)))) as [Hp|Hp]; simpl in Hp.
    + injection Hp as <-. rewrite decide_True by done. simpl. lia.
    + rewrite decide_False by congruence. lia.
  - rewrite !filter_cons. simpl in Hc.
    destruct (decide (isM c)); simpl; rewrite IH by (done || lia); lia.
Qed.

Lemma count_holes (k : nat) : filter isM (replicate k None) = [].
Proof.
  induction k as [|k IH]; [reflexivity|]. simpl.
  rewrite filter_cons, decide_False by discriminate. exact IH.
Qed.

Lemma count_extend_mark (p : Mark) (cs : list (option Value)) (k : nat) :
  length (filter isM (cs ++ replicate k None ++ [Some (Str p)])) =
  (length (filter isM cs) + if decide (m = p) then 1 else 0)%nat.
Proof.
  rewrite !filter_app, count_holes, !length_app. simpl.
  rewrite filter_cons, filter_nil.
  destruct (decide (isM (Some (Str p)))) as [Hp|Hp]; simpl in Hp.
  - injection Hp as <-. by rewrite decide_True.
  - rewrite decide_False by congruence. reflexivity.
Qed.

(** Writing a mark into an empty slot of the copied board adds one to the
    count of that mark and leaves the count of the other mark alone. *)
Lemma countMark_setAt (p : Mark) (a : JSArray) (i : Z) :
  0 ≤ i < 2 ^ 32 - 1 →
  Boolean (getAt a i) = false →
  countMark m (setAt (slice a) i (Str p)) =
  (countMark m a + if decide (m = p) then 1 else 0)%nat.
Proof.
  intros Hi Hc. rewrite getAt_index in Hc by done.
  rewrite setAt_index by done. unfold countMark. simpl.
  destruct (decide (Z.to_nat i < length (elems a))%nat); simpl.
  - by apply count_insert_mark.
  - apply count_extend_mark.
Qed.
End Counting.

Lemma balanced_initialState : balanced initialState.
Proof. split; reflexivity. Qed.

Lemma balanced_applyMove s i :
  0 ≤ i ≤ 8 → balanced s → balanced (applyMove i s).
Proof.
  intros Hi [Hlen Hcnt]. unfold applyMove, handleClick.
  destruct (Boolean (getAt (squares s) i)) eqn:Hc; simpl; [by split|].
  destruct (isGameOver s); simpl; [by split|].
  unfold balanced.
  rewrite squares_trackOutcome, xIsNext_trackOutcome. simpl. split.
  - rewrite setAt_index by lia. simpl.
    rewrite decide_True by lia. simpl. by rewrite length_insert.
  - rewrite !countMark_setAt by (done || lia). rewrite Hcnt.
    destruct (xIsNext s); simpl; lia.
Qed.

Lemma balanced_step s e : onBoard e → balanced s → balanced (step e s).
Proof.
  destruct e as [i| |]; simpl; intros He Hb.
  - by apply balanced_applyMove.
  - exact balanced_initialState.
  - unfold newGame, handleNewGame.
    destruct (0 <? length (history s))%nat; [exact balanced_initialState | exact Hb].
Qed.

Lemma reachable_balanced s : reachable s → balanced s.
Proof.
  induction 1 as [|s e _ IH He]; [exact balanced_initialState|].
  by apply balanced_step.
Qed.

(** C8, as the code has it.  In every state reachable from the reset state
    by apply move with a cell index 0-8, new game and reset, the board has
    nine cells and the numbers of X cells and of O cells differ by at most
    one.  The handler itself accepts other indices, and with those the
    balance can be lost (see [moves_outside_board_unbalance]). *)
Theorem marks_differ_by_at_most_one (s : State) :
  reachable s →
  length (elems (squares s)) = 9%nat ∧
  (countMark X (squares s) ≤ countMark O (squares s) + 1)%nat ∧
  (countMark O (squares s) ≤ countMark X (squares s) + 1)%nat.
Proof.
  intros Hr. destruct (reachable_balanced s Hr) as [Hlen Hcnt].
  split; [exact Hlen|]. rewrite Hcnt. destruct (xIsNext s); lia.
Qed.

Lemma marks_differ_by_at_most_one_witness :
  (countMark X (squares (step (Move 4) initialState))
   ≤ countMark O (squares (step (Move 4) initialState)) + 1)%nat.
Proof.
  assert (0 ≤ 4 ≤ 8) as Hi by lia.
  apply (marks_differ_by_at_most_one (step (Move 4) initialState)
           (reachable_step initialState (Move 4) reachable_init Hi)).
Defined.

(** The restriction to cells 0-8 matters: a negative index is stored as a
    property that the next [slice()] drops, so X's move is lost while the
    turn still passes, and O ends up two marks ahead. *)
Remark negative_index_unbalances :
  (countMark X ∘ squares) <$> applyMoves [-1; 0; -1; 1] initialState = Some 0%nat ∧
  (countMark O ∘ squares) <$> applyMoves [-1; 0; -1; 1] initialState = Some 2%nat.
Proof. split; vm_compute; reflexivity. Qed.

(** C8 without the restriction to cells 0-8 fails.  From the reset state the
    four moves -1, 0, -1, 1 are all applied by apply move; both X moves
    land in a property that the next copy of the board drops, and the
    state reached has no X cell and two O cells. *)
Lemma moves_outside_board_unbalance :
  ∃ s, applyMoves [-1; 0; -1; 1] initialState = Some s ∧
       elems (squares s) =
         [ Some (Str O); Some (Str O); Some Null;
           Some Null; Some Null; Some Null;
           Some Null; Some Null; Some Null ] ∧
       countMark X (squares s) = 0%nat ∧
       countMark O (squares s) = 2%nat ∧
       ¬ (countMark O (squares s) ≤ countMark X (squares s) + 1)%nat.
Proof.
  exists (applyMove 1 (applyMove (-1) (applyMove 0 (applyMove (-1) initialState)))).
  split; [vm_compute; reflexivity|].
  split; [vm_compute; reflexivity|].
  split; [vm_compute; reflexivity|].
  split; [vm_compute; reflexivity|].
  intros H. vm_compute in H. lia.
Qed.

(** * Further properties of the component *)

(** ** The result of the winner scan *)

Lemma scanLines_result sq ls :
  (scanLines sq ls = (Null, None) ∧ ∀ l m, l ∈ ls → ¬ lineHolds sq l m) ∨
  (∃ m l, scanLines sq ls = (Str m, Some l) ∧ l ∈ ls ∧ lineHolds sq l m).
Proof.
  induction ls as [|p ls IH].
  - left. split; [reflexivity|]. intros l m Hin. inversion Hin.
  - rewrite scanLines_cons. destruct (lineTest sq p) eqn:Ep.
    + right. apply lineTest_true in Ep as [m Hm]. exists m, p.
      split; [|split; [left | exact Hm]].
      destruct p as [[a b] c]. destruct Hm as (Ha & _). simpl. by rewrite Ha.
    + destruct IH as [[Hn Hall]|(m & l & Hs & Hin & Hl)].
      * left. split; [exact Hn|]. intros l m Hin.
        apply elem_of_cons in Hin as [->|Hin]; [|by apply Hall].
        by apply lineTest_false.
      * right. exists m, l. split; [exact Hs|]. split; [by right | exact Hl].
Qed.

Lemma calculateWinner_cases sq :
  (calculateWinner sq = (Null, None) ∧ noLine sq) ∨
  (∃ m l, calculateWinner sq = (Str m, Some l) ∧ l ∈ lines ∧ lineHolds sq l m).
Proof. apply scanLines_result. Qed.

(** The scan answers [[null, null]] exactly when no line is complete, and
    otherwise a mark together with one of the eight lines whose three cells
    all hold that mark.  This holds for any array, also one that is too
    short or has holes: a missing cell never completes a line. *)
Theorem calculateWinner_result (sq : JSArray) :
  (calculateWinner sq = (Null, None) ∧ noLine sq) ∨
  (∃ m l, calculateWinner sq = (Str m, Some l) ∧ l ∈ lines ∧ lineHolds sq l m).
Proof. apply calculateWinner_cases. Qed.

Lemma evaluate_cases sq :
  (noLine sq ∧ evaluate sq = if every Boolean sq then Draw else InProgress) ∨
  (∃ m l, evaluate sq = WonBy m (Some l) ∧ l ∈ lines ∧ lineHolds sq l m).
Proof.
  destruct (calculateWinner_cases sq) as [[Hc Hn]|(m & l & Hc & Hin & Hl)].
  - left. split; [exact Hn | by apply evalSquares_no_line].
  - right. exists m, l. split; [by apply evalSquares_won | done].
Qed.

(** On a board the three outcomes are told apart exactly: a win is always
    reported with one of the eight lines, complete in the winner's mark; a
    draw means a full board without a complete line; in-progress means no
    complete line and at least one cell not filled. *)
Theorem evaluate_exact (sq : JSArray) :
  isBoard sq →
  (∀ m ol, evaluate sq = WonBy m ol →
           ∃ l, ol = Some l ∧ l ∈ lines ∧ lineHolds sq l m) ∧
  (evaluate sq = Draw ↔ noLine sq ∧ allFilled sq) ∧
  (evaluate sq = InProgress ↔ noLine sq ∧ ¬ allFilled sq).
Proof.
  intros Hb. pose proof (every_Boolean_board sq Hb) as Hev.
  destruct (evaluate_cases sq) as [[Hn He]|(m & l & He & Hin & Hl)].
  - destruct (every Boolean sq) eqn:E; rewrite He.
    + assert (allFilled sq) as Hf by (by apply Hev).
      split; [discriminate|]. split; split; try done.
      intros [_ Hnf]. contradiction.
    + assert (¬ allFilled sq) as Hnf.
      { intros Hf. apply Hev in Hf. discriminate. }
      split; [discriminate|]. split; split; try done.
      intros [_ Hf]. contradiction.
  - rewrite He. split.
    + intros m' ol [= <- <-]. eauto.
    + split; split; try discriminate; intros [Hn _]; destruct (Hn l m Hin Hl).
Qed.

Lemma evaluate_exact_witness :
  ∃ l, Some (0, 1, 2) = Some l ∧ l ∈ lines ∧ lineHolds twoLinesBoard l X.
Proof.
  assert (isBoard twoLinesBoard) as Hb.
  { split; [reflexivity|]. unfold twoLinesBoard; simpl. repeat constructor; eauto. }
  destruct (evaluate_exact twoLinesBoard Hb) as (Hwon & _).
  apply Hwon. reflexivity.
Defined.

(** ** Clicks on cells *)

Lemma applyMove_changes s i :
  Boolean (getAt (squares s) i) = false → isGameOver s = false →
  applyMove i s ≠ s.
Proof.
  intros Hc Hg H. rewrite (applyMove_accept s i Hc Hg) in H.
  apply (f_equal history) in H. rewrite history_trackOutcome in H. simpl in H.
  by apply app_singleton_ne in H.
Qed.

(** The cell buttons are disabled exactly for the clicks the handler would
    ignore: in every state and for every index, a click on a disabled cell
    changes nothing, and a click on an enabled cell changes the state. *)
Theorem cellDisabled_iff_ignored (s : State) (i : Z) :
  (cellDisabled i s = true ↔ applyMove i s = s) ∧
  (cellDisabled i s = true ↔ handleClick i s = NoUpdate).
Proof.
  unfold cellDisabled.
  destruct (Boolean (getAt (squares s) i)) eqn:Hc;
    [|destruct (isGameOver s) eqn:Hg]; simpl.
  - assert (handleClick i s = NoUpdate) as Hh by (apply handleClick_reject; auto).
    unfold applyMove. rewrite Hh. by repeat split.
  - assert (handleClick i s = NoUpdate) as Hh by (apply handleClick_reject; auto).
    unfold applyMove. rewrite Hh. by repeat split.
  - pose proof (applyMove_changes s i Hc Hg) as Hne.
    rewrite (handleClick_accept s i Hc Hg).
    split; split; (discriminate || done).
Qed.

Lemma applyMove_keeps_mark s i j m :
  0 ≤ j < 2 ^ 32 - 1 →
  getAt (squares s) j = Str m →
  getAt (squares (applyMove i s)) j = Str m.
Proof.
  intros Hj Hm. destruct (decide (j = i)) as [->|Hne].
  - unfold applyMove. rewrite handleClick_reject; [exact Hm|].
    left. by rewrite Hm.
  - by rewrite applyMove_frame_index.
Qed.

(** A mark, once placed, stays: whatever cells are clicked afterwards, in
    whatever order and however often, a cell 0-8 that holds a mark keeps
    holding that same mark. *)
Theorem marks_persist (moves : list Z) (s : State) (j : Z) (m : Mark) :
  0 ≤ j ≤ 8 →
  getAt (squares s) j = Str m →
  getAt (squares (run (Move <$> moves) s)) j = Str m.
Proof.
  intros Hj. revert s. induction moves as [|i moves IH]; intros s Hm.
  - exact Hm.
  - simpl. apply IH. apply applyMove_keeps_mark; [lia | exact Hm].
Qed.

Lemma marks_persist_witness :
  getAt (squares (run (Move <$> [0; 4; 0; 1]) (applyMove 0 initialState))) 0 = Str X.
Proof.
  apply (marks_persist [0; 4; 0; 1] (applyMove 0 initialState) 0 X).
  - lia.
  - vm_compute. reflexivity.
Defined.

(** Once the game is over no click on a cell does anything: from a state
    whose outcome is won or draw, any sequence of moves, at any indices,
    leaves the whole state as it is.  Only Reset and New Game leave it. *)
Theorem game_over_ignores_moves (moves : list Z) (s : State) :
  synced s →
  outcome s ≠ InProgress →
  run (Move <$> moves) s = s.
Proof.
  intros Hs Hout. pose proof (synced_game_over s Hs Hout) as Hg.
  induction moves as [|i moves IH]; [reflexivity|].
  simpl. unfold applyMove at 1. rewrite handleClick_reject by auto. exact IH.
Qed.

Lemma game_over_ignores_moves_witness :
  run (Move <$> [5; 6; 9; -1])
      (run (Move <$> [0; 4; 1; 3; 2]) initialState)
  = run (Move <$> [0; 4; 1; 3; 2]) initialState.
Proof.
  apply (game_over_ignores_moves [5; 6; 9; -1]).
  - vm_compute. reflexivity.
  - intros H. vm_compute in H. discriminate H.
Defined.

(** ** What every reachable state satisfies *)

Lemma reset_initialState s : reset s = initialState.
Proof. reflexivity. Qed.

Lemma newGame_cases s :
  (history s = [] ∧ newGame s = s) ∨ (history s ≠ [] ∧ newGame s = initialState).
Proof.
  unfold newGame, handleNewGame.
  destruct (history s) as [|b h]; [left | right]; by split.
Qed.

Lemma reachable_run es : ∀ s,
  reachable s → Forall onBoard es → reachable (run es s).
Proof.
  induction es as [|e es IH]; intros s Hr Hes; [exact Hr|].
  apply Forall_cons_1 in Hes as [He Hes]. simpl.
  apply IH; [|exact Hes]. by apply reachable_step.
Qed.

Lemma cellsValid_fill : cellsValid (fill 9 Null).
Proof. split; [reflexivity|]. apply Forall_replicate. by left. Qed.

Lemma cellsValid_applyMove s i :
  0 ≤ i ≤ 8 →
  length (elems (squares s)) = 9%nat →
  cellsValid (squares s) → cellsValid (squares (applyMove i s)).
Proof.
  intros Hi Hlen [Hp Hc]. unfold applyMove, handleClick.
  destruct (Boolean (getAt (squares s) i) || isGameOver s); simpl; [by split|].
  rewrite squares_trackOutcome. simpl.
  rewrite setAt_index by lia. simpl. rewrite decide_True by lia.
  split; [reflexivity|]. simpl. apply Forall_insert; [exact Hc|]. right. eauto.
Qed.

Lemma reachable_cellsValid s : reachable s → cellsValid (squares s).
Proof.
  induction 1 as [|s e Hr IH He]; [exact cellsValid_fill|].
  destruct e as [i| |]; simpl.
  - apply cellsValid_applyMove; [exact He | | exact IH].
    by destruct (reachable_balanced s Hr).
  - exact cellsValid_fill.
  - destruct (newGame_cases s) as [[_ ->]|[_ ->]]; [exact IH | exact cellsValid_fill].
Qed.

Lemma reachable_isBoard s : reachable s → isBoard (squares s).
Proof.
  intros Hr. destruct (reachable_balanced s Hr) as [Hlen _].
  destruct (reachable_cellsValid s Hr) as [_ Hc].
  split; [exact Hlen|]. eapply Forall_impl; [exact Hc|].
  intros c [->|[m ->]]; eauto.
Qed.

Lemma history_length_applyMove s i :
  0 ≤ i < 2 ^ 32 - 1 →
  length (history s) = (countMark X (squares s) + countMark O (squares s))%nat →
  length (history (applyMove i s)) =
  (countMark X (squares (applyMove i s)) + countMark O (squares (applyMove i s)))%nat.
Proof.
  intros Hi Hh. unfold applyMove, handleClick.
  destruct (Boolean (getAt (squares s) i)) eqn:Hc; simpl; [exact Hh|].
  destruct (isGameOver s); simpl; [exact Hh|].
  rewrite squares_trackOutcome, history_trackOutcome. simpl.
  rewrite !countMark_setAt by done. rewrite length_app, Hh. simpl.
  destruct (xIsNext s); simpl; lia.
Qed.

Lemma reachable_history_length s :
  reachable s →
  length (history s) = (countMark X (squares s) + countMark O (squares s))%nat.
Proof.
  induction 1 as [|s e Hr IH He]; [reflexivity|].
  destruct e as [i| |]; simpl.
  - apply history_length_applyMove; [simpl in He; lia | exact IH].
  - reflexivity.
  - destruct (newGame_cases s) as [[_ ->]|[_ ->]]; [exact IH | reflexivity].
Qed.

Lemma count_marks_le (cs : list (option Value)) :
  (length (filter (λ c, c = Some (Str X)) cs)
   + length (filter (λ c, c = Some (Str O)) cs) ≤ length cs)%nat.
Proof.
  induction cs as [|c cs IH]; [reflexivity|].
  rewrite !filter_cons.
  destruct (decide (c = Some (Str X))) as [->|_].
  - rewrite decide_False by discriminate. simpl. lia.
  - destruct (decide (c = Some (Str O))); simpl; lia.
Qed.

Lemma count_marks_full (cs : list (option Value)) :
  (length (filter (λ c, c = Some (Str X)) cs)
   + length (filter (λ c, c = Some (Str O)) cs) = length cs)%nat →
  Forall (λ c, ∃ m, c = Some (Str m)) cs.
Proof.
  induction cs as [|c cs IH]; intros H; [constructor|].
  pose proof (count_marks_le cs) as Hle.
  rewrite !filter_cons in H.
  destruct (decide (c = Some (Str X))) as [->|Hx].
  - rewrite decide_False in H by discriminate. simpl in H.
    constructor; [eauto | apply IH; lia].
  - destruct (decide (c = Some (Str O))) as [->|Ho]; simpl in H.
    + constructor; [eauto | apply IH; lia].
    + lia.
Qed.

Lemma every_Boolean_marks (sq : JSArray) :
  Forall (λ c, ∃ m, c = Some (Str m)) (elems sq) → every Boolean sq = true.
Proof.
  unfold every. induction 1 as [|c cs [m ->] _ IH]; [reflexivity|].
  simpl. exact IH.
Qed.

Lemma evalSquares_flag sq w l g :
  evalSquares sq = (w, l, g) →
  g = Boolean w || every Boolean sq.
Proof.
  unfold evalSquares. destruct (calculateWinner sq) as [w' l'].
  destruct (Boolean w') eqn:Ew.
  - intros [= <- <- <-]. by rewrite Ew.
  - destruct (every Boolean sq); intros [= <- <- <-]; reflexivity.
Qed.

Lemma synced_flag s :
  synced s → isGameOver s = Boolean (winner s) || every Boolean (squares s).
Proof. unfold synced. intros Hs. by apply (evalSquares_flag _ (winner s) (winningLine s)). Qed.

(** ** The history counts the moves *)

(** In every reachable state the history holds one snapshot per mark on the
    board, so it has as many entries as moves were applied since the last
    reset, and never more than nine. *)
Theorem history_counts_marks (s : State) :
  reachable s →
  length (history s) = (countMark X (squares s) + countMark O (squares s))%nat ∧
  (length (history s) ≤ 9)%nat.
Proof.
  intros Hr. pose proof (reachable_history_length s Hr) as Hh.
  split; [exact Hh|]. rewrite Hh.
  destruct (reachable_balanced s Hr) as [Hlen _]. rewrite <- Hlen.
  apply count_marks_le.
Qed.

Lemma history_counts_marks_witness :
  (length (history (run [Move 4; Move 0; Move 4] initialState)) ≤ 9)%nat.
Proof.
  assert (Forall onBoard [Move 4; Move 0; Move 4]) as Hes.
  { repeat constructor; simpl; lia. }
  apply (history_counts_marks _ (reachable_run _ _ reachable_init Hes)).
Defined.

(** The ninth applied move always ends the game: a reachable state with
    nine history entries has a full board, and its outcome is won or draw. *)
Theorem ninth_move_ends_game (s : State) :
  reachable s →
  length (history s) = 9%nat →
  allFilled (squares s) ∧ outcome s ≠ InProgress.
Proof.
  intros Hr H9. rewrite (reachable_history_length s Hr) in H9.
  destruct (reachable_balanced s Hr) as [Hlen _].
  assert (every Boolean (squares s) = true) as Hev.
  { apply every_Boolean_marks, count_marks_full. unfold countMark in H9. lia. }
  split.
  - by apply (every_Boolean_board _ (reachable_isBoard s Hr)).
  - pose proof (synced_flag s (reachable_synced s Hr)) as Hg.
    rewrite Hev, orb_true_r in Hg. unfold outcome, outcomeOf. rewrite Hg.
    by destruct (winner s).
Qed.

Lemma ninth_move_ends_game_witness :
  outcome (run (Move <$> [0; 1; 2; 4; 3; 5; 7; 6; 8]) initialState) ≠ InProgress.
Proof.
  assert (Forall onBoard (Move <$> [0; 1; 2; 4; 3; 5; 7; 6; 8])) as Hes.
  { repeat constructor; simpl; lia. }
  apply (ninth_move_ends_game _ (reachable_run _ _ reachable_init Hes)).
  vm_compute. reflexivity.
Defined.

(** ** An unfinished game can go on *)

Lemma every_false_slot (cs : list (option Value)) :
  forallb (from_option Boolean true) cs = false →
  ∃ n v, (n < length cs)%nat ∧ cs !! n = Some (Some v) ∧ Boolean v = false.
Proof.
  induction cs as [|c cs IH]; [discriminate|]. simpl. intros H.
  destruct (from_option Boolean true c) eqn:Ec; simpl in H.
  - destruct (IH H) as (n & v & Hn & Hl & Hv).
    exists (S n), v. split; [lia|]. by split.
  - destruct c as [v|]; [|discriminate]. exists 0%nat, v.
    split; [lia|]. by split.
Qed.

(** While the outcome is in-progress some cell 0-8 is still empty, and a
    click on it is applied: a reachable game is never stuck short of an
    outcome. *)
Theorem in_progress_has_move (s : State) :
  reachable s →
  outcome s = InProgress →
  ∃ i, 0 ≤ i ≤ 8 ∧ getAt (squares s) i = Null ∧ applyMove i s ≠ s.
Proof.
  intros Hr Hout. apply in_progress_fields in Hout as [Hw Hg].
  pose proof (synced_flag s (reachable_synced s Hr)) as Hf.
  rewrite Hg, Hw in Hf. simpl in Hf. symmetry in Hf.
  destruct (every_false_slot _ Hf) as (n & v & Hn & Hl & Hv).
  destruct (reachable_balanced s Hr) as [Hlen _]. rewrite Hlen in Hn.
  destruct (reachable_cellsValid s Hr) as [_ Hc].
  assert (v = Null) as ->.
  { destruct (Forall_lookup_1 _ _ _ _ Hc Hl) as [[= ->]|[m [= ->]]];
      [reflexivity | discriminate Hv]. }
  assert (getAt (squares s) (Z.of_nat n) = Null) as Hcell.
  { rewrite getAt_index by lia. by rewrite Nat2Z.id, Hl. }
  exists (Z.of_nat n). split; [lia|]. split; [exact Hcell|].
  apply applyMove_changes; [by rewrite Hcell | exact Hg].
Qed.

Lemma in_progress_has_move_witness :
  ∃ i, 0 ≤ i ≤ 8 ∧ getAt (squares (applyMove 4 initialState)) i = Null
       ∧ applyMove i (applyMove 4 initialState) ≠ applyMove 4 initialState.
Proof.
  assert (0 ≤ 4 ≤ 8) as Hi by lia.
  apply (in_progress_has_move _
           (reachable_step initialState (Move 4) reachable_init Hi)).
  vm_compute. reflexivity.
Defined.

(** ** The Reset and New Game buttons *)

Lemma lines_cells l :
  l ∈ lines →
  0 ≤ l.1.1 ≤ 8 ∧ 0 ≤ l.1.2 ≤ 8 ∧ 0 ≤ l.2 ≤ 8.
Proof.
  unfold lines. intros H.
  repeat (apply elem_of_cons in H as [->|H]); simpl; try lia.
  inversion H.
Qed.

Lemma getAt_counted sq a m :
  0 ≤ a < 2 ^ 32 - 1 → getAt sq a = Str m → (1 ≤ countMark m sq)%nat.
Proof.
  intros Ha Hm. rewrite getAt_index in Hm by done.
  destruct (elems sq !! Z.to_nat a) as [[v|]|] eqn:El; simpl in Hm;
    try discriminate. subst v.
  assert (Some (Str m) ∈ filter (λ c, c = Some (Str m)) (elems sq)) as Hin.
  { apply list_elem_of_filter. split; [reflexivity|].
    by apply list_elem_of_lookup_2 in El. }
  unfold countMark.
  destruct (filter (λ c, c = Some (Str m)) (elems sq)); [inversion Hin | simpl; lia].
Qed.

Lemma game_over_has_mark s :
  synced s → isBoard (squares s) → isGameOver s = true →
  ∃ m, (1 ≤ countMark m (squares s))%nat.
Proof.
  intros Hs Hb Hg. unfold synced in Hs.
  destruct (calculateWinner_cases (squares s))
    as [[Hc Hn]|(m & l & Hc & Hin & Hl)].
  - unfold evalSquares in Hs. rewrite Hc in Hs. simpl in Hs.
    destruct (every Boolean (squares s)) eqn:Hev; [|congruence].
    apply (every_Boolean_board _ Hb) in Hev.
    destruct (Hev 0) as [m Hm]; [lia|].
    exists m. apply (getAt_counted _ 0); [lia | exact Hm].
  - apply lines_cells in Hin. destruct l as [[a b] c]. simpl in Hin.
    destruct Hl as (Ha & _). exists m. apply (getAt_counted _ a); [lia | exact Ha].
Qed.

Lemma reachable_game_over_history s :
  reachable s → isGameOver s = true → history s ≠ [].
Proof.
  intros Hr Hg Hnil.
  destruct (game_over_has_mark s (reachable_synced s Hr)
              (reachable_isBoard s Hr) Hg) as [m Hm].
  pose proof (reachable_history_length s Hr) as Hh.
  rewrite Hnil in Hh. simpl in Hh. destruct m; lia.
Qed.

(** Whenever the New Game button is enabled, a click on it does start a new
    game: in a reachable state the enabled button means the game is over,
    so the history is not empty, the handler's own guard passes, and the
    result is the initial state. *)
Theorem newGame_enabled_resets (s : State) :
  reachable s →
  newGameDisabled s = false →
  history s ≠ [] ∧ newGame s = initialState.
Proof.
  intros Hr Hd. unfold newGameDisabled in Hd. apply negb_false_iff in Hd.
  pose proof (reachable_game_over_history s Hr Hd) as Hh.
  split; [exact Hh|].
  destruct (newGame_cases s) as [[Hnil _]|[_ Heq]]; [contradiction | exact Heq].
Qed.

Lemma newGame_enabled_resets_witness :
  newGame (run (Move <$> [0; 4; 1; 3; 2]) initialState) = initialState.
Proof.
  assert (Forall onBoard (Move <$> [0; 4; 1; 3; 2])) as Hes.
  { repeat constructor; simpl; lia. }
  apply (newGame_enabled_resets _ (reachable_run _ _ reachable_init Hes)).
  vm_compute. reflexivity.
Defined.

Lemma every_empty_cells (sq : JSArray) :
  cellsValid sq →
  every (λ v, negb (Boolean v)) sq = true →
  elems sq = replicate (length (elems sq)) (Some Null).
Proof.
  intros [_ Hc] Hev. symmetry. apply replicate_as_Forall_2; [reflexivity|].
  unfold every in Hev. induction Hc as [|c cs Hc _ IH]; [constructor|].
  simpl in Hev. apply andb_prop in Hev as [Hv Hev].
  constructor; [|by apply IH].
  destruct Hc as [->|[m ->]]; [reflexivity | discriminate Hv].
Qed.

(** The Reset button is disabled in exactly one reachable state, the
    initial one, where a reset would change nothing. *)
Theorem resetDisabled_iff_initial (s : State) :
  reachable s →
  resetDisabled s = true ↔ s = initialState.
Proof.
  intros Hr. split; [|intros ->; reflexivity].
  intros Hd. unfold resetDisabled in Hd. apply andb_prop in Hd as [Hg Hev].
  apply negb_true_iff in Hg.
  pose proof (reachable_cellsValid s Hr) as Hv.
  pose proof (every_empty_cells _ Hv Hev) as Hel.
  destruct (reachable_balanced s Hr) as [Hlen Hbal].
  pose proof (reachable_history_length s Hr) as Hh.
  pose proof (reachable_synced s Hr) as Hs.
  destruct Hv as [Hp _]. rewrite Hlen in Hel.
  destruct s as [[es ps] x h g w l]. unfold synced in Hs.
  cbn [squares elems props isGameOver xIsNext history winner winningLine] in *.
  subst es ps g.
  assert (length h = 0%nat) as Hh0 by (rewrite Hh; reflexivity).
  destruct h; [|discriminate Hh0].
  destruct x; [|vm_compute in Hbal; discriminate Hbal].
  assert (evalSquares (mkArray (replicate 9 (Some Null)) ∅) = (Null, None, false))
    as He by reflexivity.
  rewrite He in Hs. injection Hs as -> ->. reflexivity.
Qed.

Lemma resetDisabled_iff_initial_witness :
  resetDisabled (run [Move 3; Reset] initialState) = true.
Proof.
  assert (Forall onBoard [Move 3; Reset]) as Hes.
  { repeat constructor; simpl; lia. }
  apply (resetDisabled_iff_initial _ (reachable_run _ _ reachable_init Hes)).
  reflexivity.
Defined.

(** ** The highlighted cells *)

Lemma synced_won s m :
  synced s → winner s = Str m →
  ∃ l, winningLine s = Some l ∧ l ∈ lines ∧ lineHolds (squares s) l m.
Proof.
  unfold synced, evalSquares. intros Hs Hw.
  destruct (calculateWinner_cases (squares s))
    as [[Hc _]|(m' & l & Hc & Hin & Hl)]; rewrite Hc in Hs; simpl in Hs.
  - destruct (every Boolean (squares s)); congruence.
  - injection Hs as Hw' Hl' _. rewrite Hw in Hw'. injection Hw' as ->.
    exists l. by split.
Qed.

Lemma synced_no_winner s :
  synced s → Boolean (winner s) = false →
  winner s = Null ∧ winningLine s = None.
Proof.
  unfold synced, evalSquares. intros Hs Hw.
  destruct (calculateWinner_cases (squares s))
    as [[Hc _]|(m' & l & Hc & _)]; rewrite Hc in Hs; simpl in Hs.
  - destruct (every Boolean (squares s)); by injection Hs as -> -> _.
  - injection Hs as Hw' _ _. rewrite Hw' in Hw. discriminate Hw.
Qed.

(** A cell is drawn as a winner square only when it belongs to the stored
    winning line, and then it holds the winner's mark. *)
Theorem winner_square_holds_mark (s : State) (i : Z) :
  synced s →
  isWinnerSquare i s = true →
  ∃ m l, outcome s = WonBy m (Some l) ∧ l ∈ lines ∧
         includes l i = true ∧ getAt (squares s) i = Str m.
Proof.
  intros Hs Hi. unfold isWinnerSquare in Hi.
  destruct (winningLine s) as [l'|] eqn:El; [|discriminate].
  apply andb_prop in Hi as [Hinc Hw].
  destruct (winner s) as [| |m] eqn:Ew; try discriminate.
  destruct (synced_won s m Hs Ew) as (l & Hl & Hin & Hholds).
  rewrite El in Hl. injection Hl as ->.
  exists m, l. split; [unfold outcome; by rewrite Ew, El|].
  split; [exact Hin|]. split; [exact Hinc|].
  destruct l as [[a b] c]. destruct Hholds as (Ha & Hb & Hc).
  unfold includes in Hinc.
  apply orb_prop in Hinc as [Hinc|Hinc]; [apply orb_prop in Hinc as [Hinc|Hinc]|];
    apply bool_decide_eq_true_1 in Hinc; by subst i.
Qed.

Lemma winner_square_holds_mark_witness :
  ∃ m l, outcome (run (Move <$> [0; 4; 1; 3; 2]) initialState) = WonBy m (Some l)
         ∧ l ∈ lines ∧ includes l 1 = true
         ∧ getAt (squares (run (Move <$> [0; 4; 1; 3; 2]) initialState)) 1 = Str m.
Proof.
  apply (winner_square_holds_mark (run (Move <$> [0; 4; 1; 3; 2]) initialState) 1).
  - vm_compute. reflexivity.
  - vm_compute. reflexivity.
Defined.

(** Of the nine rendered cells, the highlighted ones are exactly the three
    cells of the winning line when the game is won, and none otherwise. *)
Theorem highlighted_is_winning_line (s : State) :
  synced s →
  highlighted s =
  match outcome s with
  | WonBy _ (Some (a, b, c)) => [a; b; c]
  | _ => []
  end.
Proof.
  intros Hs. unfold highlighted, isWinnerSquare, outcome, outcomeOf.
  destruct (Boolean (winner s)) eqn:Ew.
  - destruct (winner s) as [| |m] eqn:Ew'; try discriminate.
    destruct (synced_won s m Hs Ew') as (l & -> & Hin & _).
    unfold lines in Hin.
    repeat (apply elem_of_cons in Hin as [->|Hin]); try reflexivity.
    inversion Hin.
  - destruct (synced_no_winner s Hs Ew) as [-> ->].
    by destruct (isGameOver s).
Qed.

Lemma highlighted_is_winning_line_witness :
  highlighted (run (Move <$> [0; 4; 1; 3; 2]) initialState) = [0; 1; 2].
Proof.
  rewrite (highlighted_is_winning_line (run (Move <$> [0; 4; 1; 3; 2]) initialState)).
  - vm_compute. reflexivity.
  - vm_compute. reflexivity.
Defined.

(** ** The winner is the player who moved last *)

Lemma synced_in_progress_noLine s :
  synced s → isGameOver s = false → noLine (squares s).
Proof.
  unfold synced, evalSquares. intros Hs Hg.
  destruct (calculateWinner_cases (squares s))
    as [[_ Hn]|(m & l & Hc & _)]; [exact Hn|].
  rewrite Hc in Hs. simpl in Hs. congruence.
Qed.

Lemma applyMove_winner s i m ol :
  synced s →
  Boolean (getAt (squares s) i) = false → isGameOver s = false →
  outcome (applyMove i s) = WonBy m ol →
  m = turnMark s.
Proof.
  intros Hs Hc Hg Hout.
  pose proof (synced_in_progress_noLine s Hs Hg) as Hn.
  rewrite (applyMove_accept s i Hc Hg), outcome_trackOutcome in Hout.
  simpl in Hout.
  destruct (evaluate_cases (setAt (slice (squares s)) i (Str (turnMark s))))
    as [[_ He]|(m' & l & He & Hin & Hl)]; rewrite He in Hout.
  { destruct (every Boolean _); discriminate Hout. }
  injection Hout as -> _.
  pose proof (lines_cells l Hin) as Hr.
  destruct l as [[a b] c]. simpl in Hr. destruct Hl as (Ha & Hb & Hcc).
  destruct (decide (a = i)) as [->|Hai].
  { rewrite getAt_setAt_eq in Ha. by injection Ha. }
  destruct (decide (b = i)) as [->|Hbi].
  { rewrite getAt_setAt_eq in Hb. by injection Hb. }
  destruct (decide (c = i)) as [->|Hci].
  { rewrite getAt_setAt_eq in Hcc. by injection Hcc. }
  rewrite getAt_setAt_ne, getAt_slice_index in Ha, Hb, Hcc by (done || lia).
  destruct (Hn (a, b, c) m Hin). by repeat split.
Qed.

Lemma reachable_winner_not_next s :
  reachable s → ∀ m ol, outcome s = WonBy m ol → turnMark s ≠ m.
Proof.
  induction 1 as [|s e Hr IH He]; intros m ol Hout; [discriminate Hout|].
  destruct e as [i| |]; simpl in Hout |- *.
  - destruct (Boolean (getAt (squares s) i)) eqn:Hc;
      [|destruct (isGameOver s) eqn:Hg].
    + unfold applyMove in *. rewrite handleClick_reject in * by auto. eauto.
    + unfold applyMove in *. rewrite handleClick_reject in * by auto. eauto.
    + pose proof (applyMove_winner s i m ol (reachable_synced s Hr) Hc Hg Hout)
        as ->.
      unfold turnMark at 1. rewrite (applyMove_accept s i Hc Hg).
      rewrite xIsNext_trackOutcome. simpl.
      unfold turnMark. by destruct (xIsNext s).
  - discriminate Hout.
  - destruct (newGame_cases s) as [[_ Heq]|[_ Heq]]; rewrite Heq in *.
    + eauto.
    + discriminate Hout.
Qed.

(** In every reachable state with a winner, the winner is the player who
    made the last move: the turn indicator shows the other mark. *)
Theorem winner_moved_last (s : State) (m : Mark) (ol : option Line) :
  reachable s →
  outcome s = WonBy m ol →
  turnMark s ≠ m.
Proof. intros Hr. by apply reachable_winner_not_next. Qed.

Lemma winner_moved_last_witness :
  turnMark (run (Move <$> [0; 4; 1; 3; 2]) initialState) ≠ X.
Proof.
  assert (Forall onBoard (Move <$> [0; 4; 1; 3; 2])) as Hes.
  { repeat constructor; simpl; lia. }
  apply (winner_moved_last _ X (Some (0, 1, 2))
           (reachable_run _ _ reachable_init Hes)).
  vm_compute. reflexivity.
Defined.

(** ** How long a game lasts *)

Lemma count_marks_all (cs : list (option Value)) :
  Forall (λ c, ∃ m, c = Some (Str m)) cs →
  (length (filter (λ c, c = Some (Str X)) cs)
   + length (filter (λ c, c = Some (Str O)) cs) = length cs)%nat.
Proof.
  induction 1 as [|c cs [m ->] _ IH]; [reflexivity|].
  rewrite !filter_cons. destruct m.
  - rewrite decide_True, decide_False by (done || discriminate). simpl. lia.
  - rewrite decide_False, decide_True by (done || discriminate). simpl. lia.
Qed.

Lemma every_Boolean_all_marks (sq : JSArray) :
  Forall is_Some (elems sq) → every Boolean sq = true →
  Forall (λ c, ∃ m, c = Some (Str m)) (elems sq).
Proof.
  unfold every. induction 1 as [|c cs [v ->] _ IH]; [constructor|].
  simpl. intros H. apply andb_prop in H as [Hv H].
  constructor; [|by apply IH]. destruct v; try discriminate. eauto.
Qed.

(** A draw is reached only with the ninth move: a reachable state whose
    outcome is draw has nine history entries, five X and four O on the
    board, and O shown as next. *)
Theorem draw_only_when_full (s : State) :
  reachable s →
  outcome s = Draw →
  length (history s) = 9%nat ∧
  countMark X (squares s) = 5%nat ∧ countMark O (squares s) = 4%nat ∧
  turnMark s = O.
Proof.
  intros Hr Hout.
  pose proof (reachable_synced s Hr) as Hs.
  assert (Boolean (winner s) = false ∧ isGameOver s = true) as [Hw Hg].
  { unfold outcome, outcomeOf in Hout.
    destruct (winner s), (isGameOver s); try discriminate; auto. }
  pose proof (synced_flag s Hs) as Hf. rewrite Hw, Hg in Hf. simpl in Hf.
  destruct (reachable_isBoard s Hr) as [Hlen Hsome].
  pose proof (count_marks_all _ (every_Boolean_all_marks _ Hsome (eq_sym Hf)))
    as Hall.
  pose proof (reachable_history_length s Hr) as Hh.
  destruct (reachable_balanced s Hr) as [_ Hbal].
  unfold countMark in *. unfold turnMark.
  destruct (xIsNext s); repeat split; lia.
Qed.

Lemma draw_only_when_full_witness :
  turnMark (run (Move <$> [0; 1; 2; 4; 3; 5; 7; 6; 8]) initialState) = O.
Proof.
  assert (Forall onBoard (Move <$> [0; 1; 2; 4; 3; 5; 7; 6; 8])) as Hes.
  { repeat constructor; simpl; lia. }
  apply (draw_only_when_full _ (reachable_run _ _ reachable_init Hes)).
  vm_compute. reflexivity.
Defined.

Lemma lineHolds_three sq l m :
  isBoard sq → l ∈ lines → lineHolds sq l m → (3 ≤ countMark m sq)%nat.
Proof.
  destruct sq as [es ps]. intros [Hlen Hsome] Hin Hl. simpl in *.
  do 9 (destruct es as [|c es]; [discriminate Hlen|];
        apply Forall_cons_1 in Hsome as [[? ->] Hsome]).
  destruct es; [|discriminate Hlen]. clear Hlen Hsome.
  unfold lines in Hin.
  repeat (apply elem_of_cons in Hin as [->|Hin]); [..|inversion Hin];
    destruct Hl as (Ha & Hb & Hc);
    rewrite getAt_index in Ha, Hb, Hc by lia; simpl in Ha, Hb, Hc; subst;
    unfold countMark; simpl elems; rewrite !filter_cons, filter_nil; cbn beta;
    (destruct (decide (Some (Str m) = Some (Str m))) as [_|Hne];
       [|by destruct Hne]);
    repeat case_decide; simpl; lia.
Qed.

(** Nobody wins early: in a reachable state with a winner at least five
    moves have been applied, and the winner has at least three marks on
    the board. *)
Theorem win_needs_five_moves (s : State) (m : Mark) (ol : option Line) :
  reachable s →
  outcome s = WonBy m ol →
  (3 ≤ countMark m (squares s))%nat ∧ (5 ≤ length (history s))%nat.
Proof.
  intros Hr Hout.
  assert (winner s = Str m) as Hw.
  { unfold outcome, outcomeOf in Hout.
    destruct (winner s), (isGameOver s); try discriminate; congruence. }
  destruct (synced_won s m (reachable_synced s Hr) Hw) as (l & _ & Hin & Hl).
  pose proof (lineHolds_three _ l m (reachable_isBoard s Hr) Hin Hl) as H3.
  split; [exact H3|].
  rewrite (reachable_history_length s Hr).
  destruct (reachable_balanced s Hr) as [_ Hbal].
  destruct m, (xIsNext s); lia.
Qed.

Lemma win_needs_five_moves_witness :
  (5 ≤ length (history (run (Move <$> [0; 4; 1; 3; 2]%Z) initialState)))%nat.
Proof.
  assert (Forall onBoard (Move <$> [0; 4; 1; 3; 2])) as Hes.
  { repeat constructor; simpl; lia. }
  apply (win_needs_five_moves _ X (Some (0, 1, 2))
           (reachable_run _ _ reachable_init Hes)).
  vm_compute. reflexivity.
Defined.

(** ** Only the nine cells matter to the scan *)

Lemma scanLines_ext sq sq' ls :
  (∀ l, l ∈ ls → l ∈ lines) →
  (∀ i, 0 ≤ i ≤ 8 → getAt sq i = getAt sq' i) →
  scanLines sq ls = scanLines sq' ls.
Proof.
  intros Hsub Heq. induction ls as [|l ls IH]; [reflexivity|].
  pose proof (lines_cells l (Hsub l ltac:(left))) as Hr.
  destruct l as [[a b] c]. simpl in Hr. simpl.
  rewrite !(Heq a), !(Heq b), !(Heq c) by lia.
  rewrite IH; [reflexivity|]. intros l' Hl'. apply Hsub. by right.
Qed.

(** The winner scan reads cells 0-8 and nothing else: two arrays that agree
    on these nine cells give the same answer, whatever else they hold
    (further slots, holes, other properties).  So a mark stored outside the
    board never makes or breaks a win. *)
Theorem calculateWinner_only_board (sq sq' : JSArray) :
  (∀ i, 0 ≤ i ≤ 8 → getAt sq i = getAt sq' i) →
  calculateWinner sq = calculateWinner sq'.
Proof. intros Heq. by apply scanLines_ext. Qed.

Lemma calculateWinner_only_board_witness :
  calculateWinner (squares (applyMove 9 initialState)) =
  calculateWinner (squares initialState).
Proof.
  apply calculateWinner_only_board. intros i Hi.
  apply applyMove_frame_index; lia.
Defined.
